(** * Verification of rustling-ontology: language registry and parser facade

    Embedding of [grammar/src/lib.rs] (the [Lang] enum generated by
    [lang_enum!([EN])], its [FromStr] and [ToString] impls and the
    per-language accessors) and of [src/lib.rs] ([Parser::parse],
    [Parser::parse_with_kind_order]).  The rule matcher and the scorer of
    the [rustling] crate and the value resolver are opaque collaborators,
    taken as section variables; the candidate tagger ([mod tagger]) is
    modelled after the specification of the candidate tagger. *)

From Stdlib Require Import List String Ascii Bool Arith ZArith Lia Sorting.Sorted.
Import ListNotations.

(** Rust's [Result<T, E>]. *)
Inductive result (T E : Type) : Type :=
| Ok : T -> result T E
| Err : E -> result T E.
Arguments Ok {T E} _.
Arguments Err {T E} _.

(** The [?] operator of Rust: propagate an [Err], continue on [Ok]. *)
Definition bind_result {T U E : Type} (r : result T E) (f : T -> result U E)
  : result U E :=
  match r with
  | Ok x => f x
  | Err e => Err e
  end.

Notation "x <-? r ;; k" := (bind_result r (fun x => k))
  (at level 61, r at next level, right associativity).

(** ** Languages ([grammar/src/lib.rs], [lang_enum!([EN])]) *)

Module Grammar.

Local Open Scope string_scope.

Inductive Lang : Type :=
| EN.

Definition Lang_all : list Lang := [EN].

(** [char::to_uppercase] on the ASCII range: [a..z] are shifted to
    [A..Z], every other character is left as it is.  Strings are taken as
    ASCII strings. *)
Definition ascii_to_upper (c : ascii) : ascii :=
  let n := nat_of_ascii c in
  if (97 <=? n)%nat && (n <=? 122)%nat then ascii_of_nat (n - 32)%nat else c.

Fixpoint to_uppercase (s : string) : string :=
  match s with
  | EmptyString => EmptyString
  | String c s' => String (ascii_to_upper c) (to_uppercase s')
  end.

(** [impl FromStr for Lang]: match the upper-cased input against the
    [stringify!]-ed variant names, else [Err(format!("Unknown language {}", it))]. *)
Definition Lang_from_str (it : string) : result Lang string :=
  if String.eqb (to_uppercase it) "EN" then Ok EN
  else Err ("Unknown language " ++ it).

(** [impl ToString for Lang]. *)
Definition Lang_to_string (l : Lang) : string :=
  match l with
  | EN => "EN"
  end.

(** The casings of a name: every way of writing each of its letters in
    lower or upper case. *)
Definition ascii_to_lower (c : ascii) : ascii :=
  let n := nat_of_ascii c in
  if (65 <=? n)%nat && (n <=? 90)%nat then ascii_of_nat (n + 32)%nat else c.

Fixpoint casings (s : string) : list string :=
  match s with
  | EmptyString => [EmptyString]
  | String c s' =>
      let rest := casings s' in
      if Ascii.eqb (ascii_to_lower c) (ascii_to_upper c)
      then map (String c) rest
      else map (String (ascii_to_lower c)) rest ++ map (String (ascii_to_upper c)) rest
  end.

End Grammar.

(** ** Values and matches ([rustling], [rustling_ontology_values]) *)

(** [OutputKind] of [rustling_ontology_values::output], and
    [OutputKind::all()], the canonical full priority order. *)
Inductive OutputKind : Type :=
| Number
| Ordinal
| Duration
| Time
| AmountOfMoney
| Temperature
| Percentage.

Scheme Equality for OutputKind.

Definition OutputKind_all : list OutputKind :=
  [Number; Ordinal; Duration; Time; AmountOfMoney; Temperature; Percentage].

(** [rustling::Range]: a half-open range [(start, end)]. *)
Definition Range : Type := (nat * nat)%type.

(** Two half-open ranges intersect iff each starts before the other ends. *)
Definition intersects (r1 r2 : Range) : bool :=
  (fst r1 <? snd r2) && (fst r2 <? snd r1).

(** [r1] lies inside [r2]. *)
Definition contained (r1 r2 : Range) : bool :=
  (fst r2 <=? fst r1) && (snd r1 <=? snd r2).

(** Root of a node of the parse forest produced by the rule matcher. *)
Record ParsedNode (D : Type) : Type := {
  root_byte_range : Range;
  root_char_range : Range;
  height : nat;
  num_nodes : nat;
  node_value : D;
  node_latent : bool
}.
Arguments root_byte_range {D} _.
Arguments root_char_range {D} _.
Arguments height {D} _.
Arguments num_nodes {D} _.
Arguments node_value {D} _.
Arguments node_latent {D} _.

(** [rustling::ParserMatch<V>]; log-probabilities are carried as integers
    (they are only compared and copied). *)
Record ParserMatch (V : Type) : Type := {
  byte_range : Range;
  char_range : Range;
  parsing_tree_height : nat;
  parsing_tree_num_nodes : nat;
  value : V;
  probalog : Z;
  latent : bool
}.
Arguments byte_range {V} _.
Arguments char_range {V} _.
Arguments parsing_tree_height {V} _.
Arguments parsing_tree_num_nodes {V} _.
Arguments value {V} _.
Arguments probalog {V} _.
Arguments latent {V} _.

(** The opaque collaborators: the rule matcher and the scorer of the
    [rustling] crate ([RuleSet::apply_all], [Model::classify]),
    [OutputKind::match_dim] and the value resolver of the context
    ([ParsingContext::resolve]). *)
Class Ontology : Type := {
  Dimension : Type;
  Output : Type;
  ResolverContext : Type;
  RuleSet : Type;
  Model : Type;
  RustlingError : Type;
  apply_all : RuleSet -> string -> result (list (ParsedNode Dimension)) RustlingError;
  classify : Model -> ParsedNode Dimension -> Z;
  dim_kind : Dimension -> option OutputKind;
  output_kind : Output -> OutputKind;
  resolve : ResolverContext -> Dimension -> option Output
}.

Definition filter_map {A B : Type} (f : A -> option B) : list A -> list B :=
  fold_right (fun a acc => match f a with Some b => b :: acc | None => acc end) [].

Fixpoint position (k : OutputKind) (order : list OutputKind) : option nat :=
  match order with
  | [] => None
  | k' :: order' =>
      if OutputKind_beq k' k then Some 0
      else option_map S (position k order')
  end.

Section Pipeline.

Context `{O : Ontology}.

(** [CandidateTagger] of [src/lib.rs]. *)
Record CandidateTagger : Type := {
  output_kind_filter : list OutputKind;
  context : ResolverContext;
  resolve_all_candidates : bool
}.

(** A scored node that survived the kind filter, with the position of its
    kind in the priority order. *)
Record Classified : Type := {
  c_pos : nat;
  c_kind : OutputKind;
  c_node : ParsedNode Dimension;
  c_prob : Z
}.

(** Modelled from the spec: the kind filter of the candidate tagger
    ([src/tagger.rs]); a node is kept iff its dimension maps to a kind listed
    in the priority order (steps 1 and 2). *)
Definition classify_kinds (order : list OutputKind)
    (cands : list (ParsedNode Dimension * Z)) : list Classified :=
  filter_map (fun '(n, pr) =>
    match dim_kind (node_value n) with
    | Some k =>
        match position k order with
        | Some p => Some {| c_pos := p; c_kind := k; c_node := n; c_prob := pr |}
        | None => None
        end
    | None => None
    end) cands.

(** Modelled from the spec: processing order of the tagger (step 3): kinds
    by priority, then descending score, then lower tree height, then fewer
    nodes. *)
Definition cand_before (a b : Classified) : bool :=
  (c_pos a <? c_pos b) ||
  ((c_pos a =? c_pos b) &&
   ((c_prob b <? c_prob a)%Z ||
    ((c_prob a =? c_prob b)%Z &&
     ((height (c_node a) <? height (c_node b)) ||
      ((height (c_node a) =? height (c_node b)) &&
       (num_nodes (c_node a) <=? num_nodes (c_node b))))))).

Fixpoint insert_cand (c : Classified) (cs : list Classified) : list Classified :=
  match cs with
  | [] => [c]
  | c' :: cs' => if cand_before c c' then c :: cs else c' :: insert_cand c cs'
  end.

Definition sort_cands (cs : list Classified) : list Classified :=
  fold_right insert_cand [] cs.

(** Modelled from the spec: best-only selection (steps 4 and 6): a candidate
    is committed iff it intersects no committed span and does not lie inside
    a committed span of a higher-priority kind.  Committed spans are kept
    with the priority of their kind. *)
Fixpoint select_best (committed : list (Range * nat)) (cs : list Classified)
  : list (Classified * bool) :=
  match cs with
  | [] => []
  | c :: cs' =>
      let r := root_byte_range (c_node c) in
      if forallb (fun '(r', p') =>
            negb (intersects r' r) && negb ((p' <? c_pos c) && contained r r'))
          committed
      then (c, node_latent (c_node c)) :: select_best ((r, c_pos c) :: committed) cs'
      else select_best committed cs'
  end.

(** Modelled from the spec: exhaustive selection (steps 5 and 6): a candidate
    is dropped iff it intersects or lies inside a committed span of a strictly
    higher-priority kind; a candidate intersecting a committed span of its own
    kind is kept as latent. *)
Fixpoint select_all (committed : list (Range * nat)) (cs : list Classified)
  : list (Classified * bool) :=
  match cs with
  | [] => []
  | c :: cs' =>
      let r := root_byte_range (c_node c) in
      if existsb (fun '(r', p') =>
            (p' <? c_pos c) && (intersects r' r || contained r r')) committed
      then select_all committed cs'
      else
        let lat := node_latent (c_node c) ||
                   existsb (fun '(r', p') => (p' =? c_pos c) && intersects r' r)
                     committed in
        (c, lat) :: select_all ((r, c_pos c) :: committed) cs'
  end.

(** Modelled from the spec: resolution of a candidate under the kind it was
    classified under; a resolved value of another kind is a coercion error
    and, like a resolution error, yields no value. *)
Definition resolve_checked (ctx : ResolverContext) (k : OutputKind) (d : Dimension)
  : option Output :=
  match resolve ctx d with
  | Some o => if OutputKind_beq (output_kind o) k then Some o else None
  | None => None
  end.

Definition to_match (ctx : ResolverContext) (cl : Classified * bool)
  : ParserMatch (option Output) :=
  let '(c, lat) := cl in
  {| byte_range := root_byte_range (c_node c);
     char_range := root_char_range (c_node c);
     parsing_tree_height := height (c_node c);
     parsing_tree_num_nodes := num_nodes (c_node c);
     value := resolve_checked ctx (c_kind c) (node_value (c_node c));
     probalog := c_prob c;
     latent := lat |}.

(** Modelled from the spec: [CandidateTagger] as a [MaxElementTagger]
    ([src/tagger.rs]): kind filter, priority ordering, selection in the
    tagger's mode, resolution of the selected candidates. *)
Definition tag (tagger : CandidateTagger) (cands : list (ParsedNode Dimension * Z))
  : list (ParserMatch (option Output)) :=
  let sorted := sort_cands (classify_kinds (output_kind_filter tagger) cands) in
  let selected := if resolve_all_candidates tagger
                  then select_all [] sorted else select_best [] sorted in
  map (to_match (context tagger)) selected.

(** [rustling::Parser] ([RawParser]): a rule set and a scorer model. *)
Record RawParser : Type := {
  rules_of : RuleSet;
  model_of : Model
}.

(** Modelled from the spec: [rustling::Parser::parse] with a tagger, after
    the data flow of the specification: rule matching, scoring of every node,
    tagging. *)
Definition raw_parse (p : RawParser) (input : string) (tagger : CandidateTagger)
  : result (list (ParserMatch (option Output))) RustlingError :=
  nodes <-? apply_all (rules_of p) input ;;
  Ok (tag tagger (map (fun n => (n, classify (model_of p) n)) nodes)).

(** [pub struct Parser(RawParser)]. *)
Record Parser : Type := mkParser { raw_parser : RawParser }.

(** The closure of [filter_map] in [Parser::parse_with_kind_order]. *)
Definition keep_resolved (m : ParserMatch (option Output))
  : option (ParserMatch Output) :=
  match value m with
  | Some v =>
      Some {| byte_range := byte_range m;
              char_range := char_range m;
              parsing_tree_height := parsing_tree_height m;
              parsing_tree_num_nodes := parsing_tree_num_nodes m;
              value := v;
              probalog := probalog m;
              latent := latent m |}
  | None => None
  end.

(** The match [m] carrying the resolved value [v] in place of its
    optional one. *)
Definition set_value (m : ParserMatch (option Output)) (v : Output)
  : ParserMatch Output :=
  {| byte_range := byte_range m;
     char_range := char_range m;
     parsing_tree_height := parsing_tree_height m;
     parsing_tree_num_nodes := parsing_tree_num_nodes m;
     value := v;
     probalog := probalog m;
     latent := latent m |}.

(** Number of raw matches that carry a resolved value. *)
Definition count_resolved (ms : list (ParserMatch (option Output))) : nat :=
  List.length (filter (fun m => match value m with Some _ => true | None => false end) ms).

(** [Parser::parse_with_kind_order]. *)
Definition parse_with_kind_order (self : Parser) (input : string)
    (ctx : ResolverContext) (order : list OutputKind)
  : result (list (ParserMatch Output)) RustlingError :=
  let tagger := {| output_kind_filter := order;
                   context := ctx;
                   resolve_all_candidates := false |} in
  ms <-? raw_parse (raw_parser self) input tagger ;;
  Ok (filter_map keep_resolved ms).

(** [Parser::parse]. *)
Definition parse (self : Parser) (input : string) (ctx : ResolverContext)
  : result (list (ParserMatch Output)) RustlingError :=
  let all_output := OutputKind_all in
  parse_with_kind_order self input ctx all_output.

(** A sequence of [parse] calls on one parser: [parse] borrows the parser
    immutably ([&self]), so the parser passed to each call is the one
    built once. *)
Fixpoint parse_session (self : Parser) (calls : list (string * ResolverContext))
  : list (result (list (ParserMatch Output)) RustlingError) :=
  match calls with
  | [] => []
  | (input, ctx) :: calls' => parse self input ctx :: parse_session self calls'
  end.

End Pipeline.

(** ** Parser construction ([src/lib.rs], [grammar/src/lib.rs]) *)

(** The per-language resources the construction functions read: the rule
    set builder and example corpus of [rustling_ontology_en], the model blob
    [en.rmp] decoded by [rmp_serde], the conversion of a decoding error into
    a [RustlingError] applied by [?], and [rustling::train::train] with the
    crate's [FeatureExtractor]. *)
Class OntologyResources `{Ontology} : Type := {
  Example : Type;
  DecodeError : Type;
  en_rule_set : result RuleSet RustlingError;
  en_examples : list Example;
  decode_en_model : result Model DecodeError;
  error_of_decode : DecodeError -> RustlingError;
  train : RuleSet -> list Example -> result Model RustlingError
}.

Section Construction.

Context `{R : OntologyResources}.

(** [grammar::rules]. *)
Definition rules (lang : Grammar.Lang) : result RuleSet RustlingError :=
  match lang with
  | Grammar.EN => en_rule_set
  end.

(** [grammar::examples]. *)
Definition examples (lang : Grammar.Lang) : list Example :=
  match lang with
  | Grammar.EN => en_examples
  end.

(** The model expression of [build_raw_parser], with the [?] conversion of
    the decoding error. *)
Definition load_model (lang : Grammar.Lang) : result Model RustlingError :=
  match lang with
  | Grammar.EN =>
      match decode_en_model with
      | Ok m => Ok m
      | Err e => Err (error_of_decode e)
      end
  end.

(** [build_raw_parser]. *)
Definition build_raw_parser (lang : Grammar.Lang) : result RawParser RustlingError :=
  rs <-? rules lang ;;
  model <-? load_model lang ;;
  Ok {| rules_of := rs; model_of := model |}.

(** [build_parser]: [build_raw_parser(lang).map(crate::Parser)]. *)
Definition build_parser (lang : Grammar.Lang) : result Parser RustlingError :=
  match build_raw_parser lang with
  | Ok raw => Ok (mkParser raw)
  | Err e => Err e
  end.

(** [train_parser]. *)
Definition train_parser (lang : Grammar.Lang) : result Parser RustlingError :=
  rs <-? rules lang ;;
  let exs := examples lang in
  model <-? train rs exs ;;
  Ok (mkParser {| rules_of := rs; model_of := model |}).

End Construction.

(** ** A concrete instance of the collaborators

    Dimensions and outputs are a kind tag with an integer payload; the
    resolver fails on negative payloads; the rule matcher returns the forest
    stored in the rule set; the scorer scores a node by its node count. *)
Module Toy.

Definition node (b e : nat) (k : OutputKind) (v : Z) (h n : nat) : ParsedNode (OutputKind * Z) :=
  {| root_byte_range := (b, e); root_char_range := (b, e); height := h;
     num_nodes := n; node_value := (k, v); node_latent := false |}.

#[export] Instance toy_ontology : Ontology := {|
  Dimension := OutputKind * Z;
  Output := OutputKind * Z;
  ResolverContext := unit;
  RuleSet := list (ParsedNode (OutputKind * Z));
  Model := unit;
  RustlingError := string;
  apply_all := fun rs input =>
    match input with EmptyString => Ok [] | _ => Ok rs end;
  classify := fun _ n => Z.of_nat (num_nodes n);
  dim_kind := fun d => Some (fst d);
  output_kind := fun o => fst o;
  resolve := fun _ d => if (snd d <? 0)%Z then None else Some d
|}.

(** A forest: a number over [0,10), a smaller number inside it, a time
    over [11,19), an ordinal straddling both, and a number at [20,25) whose
    resolution fails. *)
Definition forest : list (ParsedNode (OutputKind * Z)) :=
  [node 0 10 Number 21 2 3; node 0 6 Number 20 1 1; node 11 19 Time 5 3 4;
   node 5 15 Ordinal 3 2 5; node 20 25 Number (-1) 1 1].

Definition toy_parser : Parser := mkParser {| rules_of := forest; model_of := tt |}.

(** The matches returned by [parse] on a non-empty text. *)
Definition toy_result : list (ParserMatch Output) :=
  match parse toy_parser "twenty-one"%string tt with Ok ms => ms | Err _ => [] end.

(** The raw matches produced for the kind order [[Number]]. *)
Definition toy_raw : list (ParserMatch (option Output)) :=
  match raw_parse (raw_parser toy_parser) "twenty-one"%string
          {| output_kind_filter := [Number]; context := tt;
             resolve_all_candidates := false |} with
  | Ok ms => ms
  | Err _ => []
  end.

Definition toy_number_only : list (ParserMatch Output) :=
  match parse_with_kind_order toy_parser "twenty-one"%string tt [Number] with
  | Ok ms => ms
  | Err _ => []
  end.

Definition dummy_match : ParserMatch Output :=
  {| byte_range := (0, 0); char_range := (0, 0); parsing_tree_height := 0;
     parsing_tree_num_nodes := 0; value := (Number, 0%Z); probalog := 0%Z;
     latent := false |}.

(** Resources of the concrete instance: the forest above as rule set, a
    model blob that decodes, and a trainer that fails on an empty corpus. *)
#[export] Instance toy_resources : OntologyResources := {|
  Example := string;
  DecodeError := string;
  en_rule_set := Ok forest;
  en_examples := ["twenty-one"%string];
  decode_en_model := Ok tt;
  error_of_decode := fun e => e;
  train := fun _ exs => match exs with [] => Err "no examples"%string | _ => Ok tt end
|}.

(** Resources whose rule-set builder fails, and resources whose rule set
    builds but whose model blob does not decode. *)
Definition toy_resources_no_rules : OntologyResources :=
  {| Example := string; DecodeError := string;
     en_rule_set := Err "rule set"%string; en_examples := [];
     decode_en_model := Err "blob"%string; error_of_decode := fun e => e;
     train := fun _ _ => Ok tt |}.

Definition toy_resources_bad_blob : OntologyResources :=
  {| Example := string; DecodeError := string;
     en_rule_set := Ok forest; en_examples := [];
     decode_en_model := Err "blob"%string;
     error_of_decode := fun e => ("decode: " ++ e)%string;
     train := fun _ _ => Ok tt |}.

End Toy.

(** ** Properties of the pipeline *)

Section PipelineFacts.

Context `{O : Ontology}.

Lemma In_filter_map {A B : Type} (f : A -> option B) (l : list A) (b : B) :
  In b (filter_map f l) <-> exists a, In a l /\ f a = Some b.
Proof.
  induction l as [|a l IH]; simpl.
  - split; [tauto | intros (a & [] & _)].
  - destruct (f a) as [b'|] eqn:Hf; simpl; rewrite IH; split.
    + intros [<- | (a' & Ha' & Hf')]; eauto.
    + intros (a' & [<- | Ha'] & Hf'); [left; congruence | right; eauto].
    + intros (a' & Ha' & Hf'); eauto.
    + intros (a' & [<- | Ha'] & Hf'); [congruence | eauto].
Qed.

(** [filter_map] keeps a pairwise relation that holds on the images. *)
Lemma ForallOrdPairs_filter_map {A B : Type} (R : B -> B -> Prop) (S : A -> A -> Prop)
    (f : A -> option B) (l : list A) :
  (forall a a' b b', S a a' -> f a = Some b -> f a' = Some b' -> R b b') ->
  ForallOrdPairs S l -> ForallOrdPairs R (filter_map f l).
Proof.
  intros HSR H; induction H as [|a l Ha Hl IH]; simpl; [constructor|].
  destruct (f a) as [b|] eqn:Hf; [|exact IH].
  constructor; [|exact IH].
  apply Forall_forall; intros b' Hb'.
  apply In_filter_map in Hb' as (a' & Ha' & Hf').
  eapply HSR; [|eassumption|eassumption].
  rewrite Forall_forall in Ha; auto.
Qed.

Lemma ForallOrdPairs_map {A B : Type} (R : B -> B -> Prop) (g : A -> B) (l : list A) :
  ForallOrdPairs (fun a a' => R (g a) (g a')) l -> ForallOrdPairs R (map g l).
Proof.
  intros H; induction H as [|a l Ha Hl IH]; simpl; constructor; auto.
  apply Forall_map; exact Ha.
Qed.

(** A symmetric relation holding on ordered pairs holds on any two
    distinct positions. *)
Lemma ForallOrdPairs_nth {A : Type} (R : A -> A -> Prop) (l : list A) :
  (forall a b, R a b -> R b a) ->
  ForallOrdPairs R l ->
  forall i j a b, i <> j -> nth_error l i = Some a -> nth_error l j = Some b -> R a b.
Proof.
  intros Hsym H; induction H as [|x l Hx Hl IH];
    intros i j a b Hij Hi Hj; [destruct i; discriminate|].
  rewrite Forall_forall in Hx.
  destruct i as [|i], j as [|j]; simpl in Hi, Hj.
  - congruence.
  - injection Hi as <-; apply Hx; eapply nth_error_In; eassumption.
  - injection Hj as <-; apply Hsym, Hx; eapply nth_error_In; eassumption.
  - apply (IH i j a b); [lia | exact Hi | exact Hj].
Qed.

Lemma intersects_sym (r1 r2 : Range) : intersects r1 r2 = intersects r2 r1.
Proof. unfold intersects; apply andb_comm. Qed.

(** Invariant of best-only selection: the selected spans are pairwise
    disjoint and disjoint from every span committed before. *)
Lemma select_best_disjoint (committed : list (Range * nat)) (cs : list Classified) :
  ForallOrdPairs
    (fun x y => intersects (root_byte_range (c_node (fst x)))
                           (root_byte_range (c_node (fst y))) = false)
    (select_best committed cs) /\
  (forall x rp, In x (select_best committed cs) -> In rp committed ->
     intersects (fst rp) (root_byte_range (c_node (fst x))) = false).
Proof.
  revert committed; induction cs as [|c cs IH]; intros committed; simpl.
  - split; [constructor | tauto].
  - destruct (forallb _ committed) eqn:Hall.
    + destruct (IH ((root_byte_range (c_node c), c_pos c) :: committed))
        as [Hpairs Hcomm].
      split.
      * constructor; [|exact Hpairs].
        apply Forall_forall; intros y Hy; simpl.
        exact (Hcomm y _ Hy (or_introl eq_refl)).
      * intros x [r' p'] [<- | Hx] Hrp; simpl.
        -- rewrite forallb_forall in Hall.
           specialize (Hall _ Hrp); simpl in Hall.
           apply andb_prop in Hall as [H1 _].
           destruct (intersects r' _); [discriminate | reflexivity].
        -- exact (Hcomm x (r', p') Hx (or_intror Hrp)).
    + apply IH.
Qed.

(** Every selected candidate comes from the processed list. *)
Lemma select_best_In (committed : list (Range * nat)) (cs : list Classified) x :
  In x (select_best committed cs) -> In (fst x) cs.
Proof.
  revert committed; induction cs as [|c cs IH]; intros committed; simpl; [tauto|].
  destruct (forallb _ committed).
  - intros [<- | Hx]; [left; reflexivity | right; eapply IH; eassumption].
  - intros Hx; right; eapply IH; eassumption.
Qed.

Lemma insert_cand_In (c : Classified) (cs : list Classified) x :
  In x (insert_cand c cs) -> x = c \/ In x cs.
Proof.
  induction cs as [|c' cs IH]; simpl.
  - intros [<- | []]; left; reflexivity.
  - destruct (cand_before c c'); simpl.
    + intros [<- | Hx]; [left; reflexivity | right; exact Hx].
    + intros [<- | Hx]; [right; left; reflexivity|].
      destruct (IH Hx); tauto.
Qed.

Lemma sort_cands_In (cs : list Classified) x :
  In x (sort_cands cs) -> In x cs.
Proof.
  induction cs as [|c cs IH]; simpl; [tauto|].
  intros Hx; apply insert_cand_In in Hx as [-> | Hx]; [left | right; apply IH]; auto.
Qed.

Lemma position_In (k : OutputKind) (order : list OutputKind) p :
  position k order = Some p -> In k order.
Proof.
  revert p; induction order as [|k' order IH]; intros p; simpl; [discriminate|].
  destruct (OutputKind_beq k' k) eqn:Hk.
  - intros _; left; apply internal_OutputKind_dec_bl; exact Hk.
  - destruct (position k order) as [q|] eqn:Hq; simpl; [|discriminate].
    intros _; right; eapply IH; reflexivity.
Qed.

Lemma classify_kinds_In (order : list OutputKind) cands c :
  In c (classify_kinds order cands) -> In (c_kind c) order.
Proof.
  unfold classify_kinds; rewrite In_filter_map.
  intros ([n pr] & _ & Hc).
  destruct (dim_kind (node_value n)) as [k|]; [|discriminate].
  destruct (position k order) as [p|] eqn:Hp; [|discriminate].
  injection Hc as <-; simpl; eapply position_In; eassumption.
Qed.

Lemma resolve_checked_kind ctx k d o :
  resolve_checked ctx k d = Some o -> output_kind o = k.
Proof.
  unfold resolve_checked.
  destruct (resolve ctx d) as [o'|]; [|discriminate].
  destruct (OutputKind_beq (output_kind o') k) eqn:Hk; [|discriminate].
  intros [= <-]; apply internal_OutputKind_dec_bl; exact Hk.
Qed.

(** The [?] of [Parser::parse_with_kind_order], unfolded. *)
Lemma parse_with_kind_order_unfold self input ctx order :
  parse_with_kind_order self input ctx order =
  match raw_parse (raw_parser self) input
          {| output_kind_filter := order; context := ctx;
             resolve_all_candidates := false |} with
  | Ok ms => Ok (filter_map keep_resolved ms)
  | Err e => Err e
  end.
Proof. reflexivity. Qed.

Lemma keep_resolved_Some m m' :
  keep_resolved m = Some m' -> value m = Some (value m') /\ m' = set_value m (value m').
Proof.
  unfold keep_resolved; destruct (value m) as [v|]; [|discriminate].
  intros [= <-]; split; reflexivity.
Qed.

Lemma ForallOrdPairs_impl {A : Type} (R S : A -> A -> Prop) (l : list A) :
  (forall a b, R a b -> S a b) -> ForallOrdPairs R l -> ForallOrdPairs S l.
Proof.
  intros HRS H; induction H as [|a l Ha Hl IH]; constructor; [|exact IH].
  eapply Forall_impl; [|exact Ha]; auto.
Qed.

Lemma to_match_byte_range ctx x :
  byte_range (to_match ctx x) = root_byte_range (c_node (fst x)).
Proof. destruct x; reflexivity. Qed.

Lemma to_match_value ctx x :
  value (to_match ctx x) =
  resolve_checked ctx (c_kind (fst x)) (node_value (c_node (fst x))).
Proof. destruct x; reflexivity. Qed.

(** The raw matches of a best-only tagging, as produced by [raw_parse]. *)
Lemma raw_parse_best p input order ctx ms :
  raw_parse p input {| output_kind_filter := order; context := ctx;
                       resolve_all_candidates := false |} = Ok ms ->
  exists nodes,
    apply_all (rules_of p) input = Ok nodes /\
    ms = map (to_match ctx)
           (select_best [] (sort_cands (classify_kinds order
              (map (fun n => (n, classify (model_of p) n)) nodes)))).
Proof.
  unfold raw_parse, bind_result.
  destruct (apply_all (rules_of p) input) as [nodes|e]; [|discriminate].
  intros [= <-]; exists nodes; split; reflexivity.
Qed.

(** Best-only tagging followed by the facade's filter never returns two
    matches with intersecting byte ranges, whatever the kind order. *)
Lemma parse_with_kind_order_disjoint self input ctx order ms :
  parse_with_kind_order self input ctx order = Ok ms ->
  ForallOrdPairs (fun a b => intersects (byte_range a) (byte_range b) = false) ms.
Proof.
  rewrite parse_with_kind_order_unfold.
  destruct (raw_parse _ _ _) as [ms0|e] eqn:Hraw; [|discriminate].
  intros [= <-].
  apply raw_parse_best in Hraw as (nodes & _ & ->).
  apply ForallOrdPairs_filter_map
    with (S := fun a b : ParserMatch (option Output) =>
                 intersects (byte_range a) (byte_range b) = false).
  - intros a a' b b' Hab Ha Ha'.
    apply keep_resolved_Some in Ha as [_ ->].
    apply keep_resolved_Some in Ha' as [_ ->].
    exact Hab.
  - apply ForallOrdPairs_map.
    eapply ForallOrdPairs_impl; [|apply select_best_disjoint].
    intros a b H; simpl; rewrite !to_match_byte_range; exact H.
Qed.

End PipelineFacts.

Section Claims.

Context `{O : Ontology}.

Lemma length_filter_map_keep_resolved ms :
  List.length (filter_map keep_resolved ms) = count_resolved ms.
Proof.
  unfold count_resolved; induction ms as [|m ms IH]; simpl; [reflexivity|].
  unfold keep_resolved at 1; destruct (value m); simpl; congruence.
Qed.

Lemma nth_error_parse_session self calls i :
  nth_error (parse_session self calls) i =
  option_map (fun '(input, ctx) => parse self input ctx) (nth_error calls i).
Proof.
  revert i; induction calls as [|[input ctx] calls IH]; intros [|i]; simpl;
    try reflexivity.
  apply IH.
Qed.

(** C1: the matches returned by one [parse] call (best-only tagging) have
    pairwise non-intersecting byte ranges. *)
Theorem parse_no_overlap self input ctx ms :
  parse self input ctx = Ok ms ->
  forall i j a b, i <> j -> nth_error ms i = Some a -> nth_error ms j = Some b ->
  intersects (byte_range a) (byte_range b) = false.
Proof.
  intros H; apply ForallOrdPairs_nth.
  - intros a b; rewrite intersects_sym; auto.
  - eapply parse_with_kind_order_disjoint; exact H.
Qed.

(** C2: [parse] is [parse_with_kind_order] with [OutputKind::all()], which
    lists every output kind exactly once. *)
Theorem parse_is_all_kinds self input ctx :
  parse self input ctx = parse_with_kind_order self input ctx OutputKind_all /\
  NoDup OutputKind_all /\ (forall k, In k OutputKind_all).
Proof.
  split; [reflexivity|split].
  - unfold OutputKind_all.
    repeat (constructor; [simpl; intuition discriminate|]); constructor.
  - intros []; simpl; tauto.
Qed.

(** C4: a parse fails only when rule matching fails; once the raw parse
    succeeded, raw matches without a resolved value are dropped and every
    raw match with a resolved value is returned. *)
Theorem parse_with_kind_order_drops_unresolved self input ctx order :
  (forall e, parse_with_kind_order self input ctx order = Err e ->
             apply_all (rules_of (raw_parser self)) input = Err e) /\
  (forall ms,
     raw_parse (raw_parser self) input
       {| output_kind_filter := order; context := ctx;
          resolve_all_candidates := false |} = Ok ms ->
     exists out,
       parse_with_kind_order self input ctx order = Ok out /\
       (forall m v, In m ms -> value m = Some v -> In (set_value m v) out) /\
       (forall m', In m' out -> exists m, In m ms /\ value m = Some (value m')) /\
       List.length out = count_resolved ms).
Proof.
  split.
  - rewrite parse_with_kind_order_unfold; unfold raw_parse, bind_result.
    destruct (apply_all _ input); congruence.
  - intros ms Hraw; rewrite parse_with_kind_order_unfold, Hraw.
    exists (filter_map keep_resolved ms); split; [reflexivity|].
    split; [|split].
    + intros m v Hm Hv; apply In_filter_map; exists m; split; [exact Hm|].
      unfold keep_resolved; rewrite Hv; reflexivity.
    + intros m' Hm'; apply In_filter_map in Hm' as (m & Hm & Hk).
      exists m; split; [exact Hm | apply keep_resolved_Some; exact Hk].
    + apply length_filter_map_keep_resolved.
Qed.

(** C7: no returned match has a kind left out of the kind order. *)
Theorem parse_with_kind_order_omitted_kind self input ctx order ms k :
  parse_with_kind_order self input ctx order = Ok ms -> ~ In k order ->
  forall m, In m ms -> output_kind (value m) <> k.
Proof.
  rewrite parse_with_kind_order_unfold.
  destruct (raw_parse _ _ _) as [ms0|e] eqn:Hraw; [|discriminate].
  intros [= <-] Hk m Hm Heq.
  apply In_filter_map in Hm as (m0 & Hm0 & Hkeep).
  apply keep_resolved_Some in Hkeep as [Hv _].
  apply raw_parse_best in Hraw as (nodes & _ & ->).
  apply in_map_iff in Hm0 as (x & <- & Hx).
  rewrite to_match_value in Hv.
  apply resolve_checked_kind in Hv.
  apply select_best_In, sort_cands_In, classify_kinds_In in Hx.
  apply Hk; rewrite <- Heq, Hv; exact Hx.
Qed.

(** C8: within any sequence of calls on one parser, two [parse] calls with
    the same text and context return the same result. *)
Theorem parse_session_deterministic self calls i j input ctx :
  nth_error calls i = Some (input, ctx) -> nth_error calls j = Some (input, ctx) ->
  nth_error (parse_session self calls) i = nth_error (parse_session self calls) j.
Proof.
  intros Hi Hj; rewrite !nth_error_parse_session, Hi, Hj; reflexivity.
Qed.

(** C10: every returned match carries the byte range, char range, tree
    height, node count, log-probability and latent flag of a raw match
    whose value it resolves. *)
Theorem parse_with_kind_order_frame self input ctx order ms out :
  raw_parse (raw_parser self) input
    {| output_kind_filter := order; context := ctx;
       resolve_all_candidates := false |} = Ok ms ->
  parse_with_kind_order self input ctx order = Ok out ->
  forall m', In m' out -> exists m, In m ms /\
    value m = Some (value m') /\
    byte_range m' = byte_range m /\ char_range m' = char_range m /\
    parsing_tree_height m' = parsing_tree_height m /\
    parsing_tree_num_nodes m' = parsing_tree_num_nodes m /\
    probalog m' = probalog m /\ latent m' = latent m.
Proof.
  intros Hraw; rewrite parse_with_kind_order_unfold, Hraw.
  intros [= <-] m' Hm'.
  apply In_filter_map in Hm' as (m & Hm & Hk).
  apply keep_resolved_Some in Hk as [Hv ->].
  exists m; repeat split; assumption.
Qed.

End Claims.

(** ** Properties of the language registry *)

Module GrammarFacts.

Import Grammar.
Local Open Scope string_scope.

Lemma ascii_to_upper_E c : ascii_to_upper c = "E"%char -> c = "e"%char \/ c = "E"%char.
Proof.
  destruct c as [[] [] [] [] [] [] [] []]; vm_compute; intros H;
    first [discriminate H | left; reflexivity | right; reflexivity].
Qed.

Lemma ascii_to_upper_N c : ascii_to_upper c = "N"%char -> c = "n"%char \/ c = "N"%char.
Proof.
  destruct c as [[] [] [] [] [] [] [] []]; vm_compute; intros H;
    first [discriminate H | left; reflexivity | right; reflexivity].
Qed.

Lemma to_uppercase_EN s : to_uppercase s = "EN" -> In s (casings "EN").
Proof.
  destruct s as [|c1 [|c2 [|c3 s]]]; simpl; intros H; try discriminate H.
  injection H as H1 H2.
  apply ascii_to_upper_E in H1 as [-> | ->];
    apply ascii_to_upper_N in H2 as [-> | ->]; vm_compute; tauto.
Qed.

(** C5: [Lang::from_str] accepts every casing of a registered language name
    and returns [Err("Unknown language <input>")] on every other string. *)
Theorem Lang_from_str_case_insensitive :
  (forall l s, In s (casings (Lang_to_string l)) -> Lang_from_str s = Ok l) /\
  (forall s, (forall l, ~ In s (casings (Lang_to_string l))) ->
             Lang_from_str s = Err ("Unknown language " ++ s)).
Proof.
  split.
  - intros [] s Hs; vm_compute in Hs.
    repeat destruct Hs as [<- | Hs]; try reflexivity; destruct Hs.
  - intros s Hs; unfold Lang_from_str.
    destruct (String.eqb_spec (to_uppercase s) "EN") as [Heq|]; [|reflexivity].
    exfalso; apply (Hs EN), to_uppercase_EN, Heq.
Qed.

(** C9: [Lang::from_str] inverts [Lang::to_string]. *)
Theorem Lang_from_str_to_string : forall l, Lang_from_str (Lang_to_string l) = Ok l.
Proof. intros []; reflexivity. Qed.

End GrammarFacts.

(** ** Instances of the pipeline theorems on the concrete collaborators *)

Module Witnesses.

Import Toy.

Local Open Scope string_scope.

Lemma parse_no_overlap_witness :
  parse toy_parser "twenty-one" tt = Ok toy_result /\
  intersects (byte_range (nth 0 toy_result dummy_match))
             (byte_range (nth 1 toy_result dummy_match)) = false.
Proof.
  split; [vm_compute; reflexivity|].
  apply (parse_no_overlap toy_parser "twenty-one" tt toy_result
           ltac:(vm_compute; reflexivity) 0 1
           (nth 0 toy_result dummy_match) (nth 1 toy_result dummy_match));
    [lia | vm_compute; reflexivity | vm_compute; reflexivity].
Defined.

Lemma parse_with_kind_order_drops_unresolved_witness :
  count_resolved toy_raw = 1%nat /\ List.length toy_raw = 2%nat /\
  exists out, parse_with_kind_order toy_parser "twenty-one" tt [Number] = Ok out /\
              List.length out = 1%nat.
Proof.
  destruct (parse_with_kind_order_drops_unresolved toy_parser "twenty-one" tt [Number])
    as [_ H].
  split; [vm_compute; reflexivity|]. split; [vm_compute; reflexivity|].
  destruct (H toy_raw) as (out & Hout & _ & _ & Hlen); [vm_compute; reflexivity|].
  exists out; split; [exact Hout | rewrite Hlen; vm_compute; reflexivity].
Defined.

Lemma parse_with_kind_order_omitted_kind_witness :
  parse_with_kind_order toy_parser "twenty-one" tt [Number] = Ok toy_number_only /\
  ~ In Time [Number] /\
  output_kind (value (nth 0 toy_number_only dummy_match)) <> Time.
Proof.
  split; [vm_compute; reflexivity|].
  split; [simpl; intuition discriminate|].
  apply (parse_with_kind_order_omitted_kind toy_parser "twenty-one" tt [Number]
           toy_number_only Time);
    [vm_compute; reflexivity | simpl; intuition discriminate | vm_compute; left; reflexivity].
Defined.

Lemma parse_session_deterministic_witness :
  nth_error (parse_session toy_parser [("one", tt); ("two", tt); ("one", tt)]) 0 =
  nth_error (parse_session toy_parser [("one", tt); ("two", tt); ("one", tt)]) 2.
Proof.
  apply (parse_session_deterministic toy_parser [("one", tt); ("two", tt); ("one", tt)]
           0 2 "one" tt); reflexivity.
Defined.

Lemma parse_with_kind_order_frame_witness :
  let m' := nth 0 toy_number_only dummy_match in
  exists m, In m toy_raw /\
    value m = Some (value m') /\
    byte_range m' = byte_range m /\ char_range m' = char_range m /\
    parsing_tree_height m' = parsing_tree_height m /\
    parsing_tree_num_nodes m' = parsing_tree_num_nodes m /\
    probalog m' = probalog m /\ latent m' = latent m.
Proof.
  intros m'.
  apply (parse_with_kind_order_frame toy_parser "twenty-one" tt [Number]
           toy_raw toy_number_only);
    [vm_compute; reflexivity | vm_compute; reflexivity | vm_compute; left; reflexivity].
Defined.

Lemma Lang_from_str_case_insensitive_witness :
  Grammar.Lang_from_str "eN" = Ok Grammar.EN /\
  Grammar.Lang_from_str "fr" = Err ("Unknown language " ++ "fr").
Proof.
  destruct GrammarFacts.Lang_from_str_case_insensitive as [H1 H2]; split.
  - apply (H1 Grammar.EN "eN"); vm_compute; tauto.
  - apply H2; intros []; vm_compute; intuition discriminate.
Defined.

End Witnesses.

(** ** Properties of parser construction and of the facade's filter *)

Section ConstructionFacts.

Context `{O : Ontology} `{R : @OntologyResources O}.

(** [build_parser] succeeds iff the language's rule set builds and its model
    blob decodes; the parser then holds exactly that rule set and model. *)
Theorem build_parser_ok lang p :
  build_parser lang = Ok p <->
  rules lang = Ok (rules_of (raw_parser p)) /\
  load_model lang = Ok (model_of (raw_parser p)).
Proof.
  unfold build_parser, build_raw_parser, bind_result.
  destruct p as [[rs m]]; simpl.
  destruct (rules lang) as [rs'|e]; [|split; [discriminate | intros [H _]; discriminate]].
  destruct (load_model lang) as [m'|e];
    [|split; [discriminate | intros [_ H]; discriminate]].
  split; [intros [= <- <-]; split; reflexivity | intros [[= ->] [= ->]]; reflexivity].
Qed.

(** A failing rule-set builder is reported as is by both constructions,
    before any model is decoded or trained. *)
Theorem rules_error_first lang e :
  rules lang = Err e -> build_parser lang = Err e /\ train_parser lang = Err e.
Proof.
  intros H; unfold build_parser, build_raw_parser, train_parser, bind_result.
  rewrite H; split; reflexivity.
Qed.

(** When the rule set builds but the model blob does not decode,
    [build_parser] fails with the converted decoding error. *)
Theorem build_parser_decode_error lang rs e :
  rules lang = Ok rs -> decode_en_model = Err e ->
  build_parser lang = Err (error_of_decode e).
Proof.
  intros Hr Hd; unfold build_parser, build_raw_parser, bind_result.
  rewrite Hr; destruct lang; simpl; rewrite Hd; reflexivity.
Qed.

(** [train_parser] succeeds iff the rule set builds and training on it with
    the language's examples succeeds; the parser holds that rule set and the
    trained model. *)
Theorem train_parser_ok lang p :
  train_parser lang = Ok p <->
  rules lang = Ok (rules_of (raw_parser p)) /\
  train (rules_of (raw_parser p)) (examples lang) = Ok (model_of (raw_parser p)).
Proof.
  unfold train_parser, bind_result.
  destruct p as [[rs m]]; simpl.
  destruct (rules lang) as [rs'|e]; [|split; [discriminate | intros [H _]; discriminate]].
  split.
  - destruct (train rs' (examples lang)) as [m'|e] eqn:Ht; [|discriminate].
    intros [= <- <-]; split; [reflexivity | exact Ht].
  - intros [[= ->] Ht]; rewrite Ht; reflexivity.
Qed.

(** A loaded parser and a trained parser of the same language hold the same
    rule set: training only replaces the source of the model. *)
Theorem build_train_same_rules lang p1 p2 :
  build_parser lang = Ok p1 -> train_parser lang = Ok p2 ->
  rules_of (raw_parser p1) = rules_of (raw_parser p2).
Proof.
  intros H1 H2.
  apply build_parser_ok in H1 as [H1 _].
  apply train_parser_ok in H2 as [H2 _].
  rewrite H1 in H2; injection H2 as H2; exact H2.
Qed.

End ConstructionFacts.

Section FacadeOrder.

Context `{O : Ontology}.



End FacadeOrder.

Module GrammarExtra.

Import Grammar.
Local Open Scope string_scope.

Lemma ascii_to_upper_idem c : ascii_to_upper (ascii_to_upper c) = ascii_to_upper c.
Proof. destruct c as [[] [] [] [] [] [] [] []]; reflexivity. Qed.

Lemma to_uppercase_idem s : to_uppercase (to_uppercase s) = to_uppercase s.
Proof.
  induction s as [|c s IH]; simpl; [reflexivity|].
  rewrite ascii_to_upper_idem, IH; reflexivity.
Qed.

(** [Lang::from_str] returns [Ok(l)] exactly for the languages [l] of
    [Lang::all()] whose [to_string] is the upper-cased input. *)
Theorem Lang_from_str_ok_iff s l :
  Lang_from_str s = Ok l <-> In l Lang_all /\ to_uppercase s = Lang_to_string l.
Proof.
  unfold Lang_from_str; destruct l.
  destruct (String.eqb_spec (to_uppercase s) "EN") as [H|H]; simpl.
  - split; [intros _; tauto | reflexivity].
  - split; [discriminate | intros [_ H']; contradiction].
Qed.

(** Upper-casing the input first does not change which language
    [Lang::from_str] finds. *)
Theorem Lang_from_str_uppercase s l :
  Lang_from_str (to_uppercase s) = Ok l <-> Lang_from_str s = Ok l.
Proof.
  rewrite !Lang_from_str_ok_iff, to_uppercase_idem; reflexivity.
Qed.

(** Every error of [Lang::from_str] quotes the input verbatim. *)
Theorem Lang_from_str_err s e :
  Lang_from_str s = Err e -> e = "Unknown language " ++ s.
Proof.
  unfold Lang_from_str; destruct (String.eqb _ _); [discriminate|].
  intros [= <-]; reflexivity.
Qed.

End GrammarExtra.

Module ExtraWitnesses.

Import Toy.
Local Open Scope string_scope.

Lemma rules_error_first_witness :
  @build_parser _ toy_resources_no_rules Grammar.EN = Err "rule set" /\
  @train_parser _ toy_resources_no_rules Grammar.EN = Err "rule set".
Proof.
  apply (@rules_error_first _ toy_resources_no_rules Grammar.EN "rule set").
  reflexivity.
Defined.

Lemma build_parser_decode_error_witness :
  @build_parser _ toy_resources_bad_blob Grammar.EN = Err "decode: blob".
Proof.
  apply (@build_parser_decode_error _ toy_resources_bad_blob Grammar.EN forest "blob");
    reflexivity.
Defined.

Lemma build_train_same_rules_witness :
  rules_of (raw_parser toy_parser) = rules_of (raw_parser toy_parser).
Proof.
  apply (@build_train_same_rules _ toy_resources Grammar.EN); reflexivity.
Defined.


Lemma Lang_from_str_err_witness : "Unknown language fr" = "Unknown language " ++ "fr".
Proof. apply (GrammarExtra.Lang_from_str_err "fr"); reflexivity. Defined.

End ExtraWitnesses.
